(** * Forum report merge: [openedx/contrib/stanford/data_forums.py]

    A shallow embedding of [merge_join_course_forums], the three-way merge
    that interleaves the per-day aggregates of threads, responses and
    comments, together with the part of Python's [datetime.date] that the
    merge relies on (construction with range checks, the ordering, and the
    constant [date.max]).

    The loop is modelled as it is written: three indices and the output
    list as state, one pass of the body as a function that returns the next
    state or raises, and the [while] as the iteration of that function. *)

From stdpp Require Import base list numbers strings sorting gmap.
From Stdlib Require Import ZArith Lia.

(** ** Exceptions and results *)

(** The two exceptions the merge can raise: [ValueError] comes out of the
    [date(...)] constructor, [IndexError] out of a list subscript. *)
Inductive exn : Set := ValueError | IndexError.

Inductive result (A : Type) : Type :=
| Returned (a : A)
| Raised (e : exn).
Arguments Returned {A} a.
Arguments Raised {A} e.

#[global] Instance result_ret : MRet result := fun _ a => Returned a.
#[global] Instance result_bind : MBind result := fun _ _ f m =>
  match m with
  | Returned a => f a
  | Raised e => Raised e
  end.

#[global] Instance result_fmap : FMap result := fun _ _ f m =>
  match m with
  | Returned a => Returned (f a)
  | Raised e => Raised e
  end.

(** ** [datetime.date] *)

Module Date.

Local Open Scope Z_scope.

Definition MINYEAR : Z := 1.
Definition MAXYEAR : Z := 9999.

(** [_DAYS_IN_MONTH], indexed from 1; index 0 holds the placeholder -1. *)
Definition _DAYS_IN_MONTH : list Z :=
  [-1; 31; 28; 31; 30; 31; 30; 31; 31; 30; 31; 30; 31].

Definition _is_leap (year : Z) : bool :=
  (year mod 4 =? 0) && (negb (year mod 100 =? 0) || (year mod 400 =? 0)).

Definition _days_in_month (year month : Z) : Z :=
  if (month =? 2) && _is_leap year then 29
  else default (-1) (_DAYS_IN_MONTH !! Z.to_nat month).

(** A constructed date: the three fields of a [date] object. *)
Record t : Set := mk { year : Z; month : Z; day : Z }.

(** [_check_date_fields]: the three range checks, in the library's order. *)
Definition _check_date_fields (y m d : Z) : result unit :=
  if negb ((MINYEAR <=? y) && (y <=? MAXYEAR)) then Raised ValueError
  else if negb ((1 <=? m) && (m <=? 12)) then Raised ValueError
  else if negb ((1 <=? d) && (d <=? _days_in_month y m)) then Raised ValueError
  else Returned ().

(** [date(year, month, day)]. *)
Definition date (y m d : Z) : result t :=
  _ ← _check_date_fields y m d; Returned (mk y m d).

(** [date.max]. *)
Definition max : t := mk 9999 12 31.

(** Dates compare as the tuples (year, month, day). *)
Definition le (a b : t) : bool :=
  (year a <? year b)
  || ((year a =? year b)
      && ((month a <? month b)
          || ((month a =? month b) && (day a <=? day b)))).

Definition lt (a b : t) : bool := negb (le b a).

(** The triples that [date] accepts. *)
Definition valid (y m d : Z) : Prop :=
  MINYEAR <= y <= MAXYEAR /\ 1 <= m <= 12 /\ 1 <= d <= _days_in_month y m.

(** The tuple order as a proposition. *)
Definition Le (a b : t) : Prop :=
  year a < year b
  \/ (year a = year b
      /\ (month a < month b \/ (month a = month b /\ day a <= day b))).

End Date.

(** ** Aggregate rows *)

(** The ['_id'] sub-document of a row produced by the [$group] stage of
    [generate_course_forums_query]. *)
Record doc_id : Set := DocId {
  year : Z;
  month : Z;
  day : Z;
  type : string
}.

(** A row of an aggregate result.  The merge reads nothing but ['_id']; the
    remaining keys ([posts], [net_points], [up_votes], [down_votes]) are
    carried along in [metrics], whose type the merge is generic in. *)
Record doc (M : Type) : Type := Doc {
  _id : doc_id;
  metrics : M
}.
Arguments Doc {M} _ _.
Arguments _id {M} _.
Arguments metrics {M} _.

(** The (year, month, day) triple of a row, ordered as a tuple. *)
Definition dateKey {M} (x : doc M) : Date.t :=
  Date.mk (year (_id x)) (month (_id x)) (day (_id x)).

Definition valid_doc {M} (x : doc M) : Prop :=
  Date.valid (year (_id x)) (month (_id x)) (day (_id x)).

(** ** The merge *)

Section merge.

Context {M : Type}.
Variables threads responses comments : list (doc M).

(** A list subscript [l[i]] with [i >= 0]. *)
Definition subscript (l : list (doc M)) (i : nat) : result (doc M) :=
  match l !! i with
  | Some x => Returned x
  | None => Raised IndexError
  end.

(** One "checking out of bounds" block of the loop body: the date of the
    row under the index, [date.max] when the index equals the length. *)
Definition bound_date (l : list (doc M)) (i : nat) : result Date.t :=
  if decide (i = length l) then Returned Date.max
  else
    x ← subscript l i;
    Date.date (year (_id x)) (month (_id x)) (day (_id x)).

(** The local variables of the function. *)
Record state : Type := State {
  t_index : nat;
  r_index : nat;
  c_index : nat;
  data : list (doc M)
}.

Definition initial : state := State 0 0 0 [].

(** The condition of the [while]. *)
Definition cond (s : state) : bool :=
  bool_decide (t_index s < length threads)
  || bool_decide (r_index s < length responses)
  || bool_decide (c_index s < length comments).

(** One pass through the body of the [while]. *)
Definition body (s : state) : result state :=
  thread_date ← bound_date threads (t_index s);
  response_date ← bound_date responses (r_index s);
  comment_date ← bound_date comments (c_index s);
  if Date.le thread_date comment_date && Date.le thread_date response_date
  then
    x ← subscript threads (t_index s);
    Returned (State (S (t_index s)) (r_index s) (c_index s) (data s ++ [x]))
  else if Date.le response_date thread_date
          && Date.le response_date comment_date
  then
    x ← subscript responses (r_index s);
    Returned (State (t_index s) (S (r_index s)) (c_index s) (data s ++ [x]))
  else
    x ← subscript comments (c_index s);
    Returned (State (t_index s) (r_index s) (S (c_index s)) (data s ++ [x])).

(** The [while] loop, unrolled at most [fuel] times; [None] when the fuel
    runs out before the loop is left. *)
Fixpoint while (fuel : nat) (s : state) : option (result (list (doc M))) :=
  match fuel with
  | O => None
  | S fuel' =>
      if cond s then
        match body s with
        | Returned s' => while fuel' s'
        | Raised e => Some (Raised e)
        end
      else Some (Returned (data s))
  end.

(** Each pass that does not raise advances one index, so the loop is left
    after at most [len(threads) + len(responses) + len(comments)] passes. *)
Definition merge_join_course_forums : option (result (list (doc M))) :=
  while (S (length threads + length responses + length comments)) initial.

End merge.

Arguments state : clear implicits.
Arguments State {M} _ _ _ _.
Arguments t_index {M} _.
Arguments r_index {M} _.
Arguments c_index {M} _.
Arguments data {M} _.

(** ** Vocabulary of the properties *)

(** A list is in chronological order when each row's date is at most the
    next row's. *)
Definition date_le {M} (x y : doc M) : Prop :=
  Date.Le (dateKey x) (dateKey y).

Definition chronological {M} (l : list (doc M)) : Prop :=
  Sorted date_le l.

(** A row whose date is the last day [datetime.date] can hold. *)
Definition at_date_max {M} (x : doc M) : Prop := dateKey x = Date.max.

(** The three kinds of rows and their priority on a tie. *)
Inductive kind : Set := Thread | Response | Comment.

#[global] Instance kind_eq_dec : EqDecision kind.
Proof. solve_decision. Defined.

Definition rank (k : kind) : nat :=
  match k with
  | Thread => 0
  | Response => 1
  | Comment => 2
  end.

(** Rows marked with the list they come from; the mark lives in [metrics],
    which the merge does not read. *)
Definition tag {M} (k : kind) (x : doc M) : doc (kind * M) :=
  Doc (_id x) (k, metrics x).

Definition untag {M} (x : doc (kind * M)) : doc M :=
  Doc (_id x) (snd (metrics x)).

Definition kind_of {M} (x : doc (kind * M)) : kind := fst (metrics x).

(** Changing the metrics of a row, leaving ['_id'] alone. *)
Definition relabel {M N} (f : M -> N) (x : doc M) : doc N :=
  Doc (_id x) (f (metrics x)).

Definition relabel_state {M N} (f : M -> N) (s : state M) : state N :=
  State (t_index s) (r_index s) (c_index s) (relabel f <$> data s).

(** The outcome of a merge with the metrics of the returned rows changed. *)
Definition relabel_outcome {M N} (f : M -> N)
    (o : option (result (list (doc M)))) : option (result (list (doc N))) :=
  fmap (M := option) (fmap (M := result) (fmap (M := list) (relabel f))) o.

(** Emission order: by date, and by kind among rows of one date. *)
Definition emit_le {M} (rk : doc M -> nat) (x y : doc M) : Prop :=
  date_le x y /\ (date_le y x -> rk x <= rk y).

(** A ranking of rows that never puts a row of a later list strictly before
    a row of an earlier list, nor tells the rows of one list apart. *)
Definition ranked {M} (rk : doc M -> nat)
    (threads responses comments : list (doc M)) : Prop :=
  (forall x y, x ∈ threads -> y ∈ threads ++ responses ++ comments ->
               rk x <= rk y)
  /\ (forall x y, x ∈ responses -> y ∈ responses ++ comments -> rk x <= rk y)
  /\ (forall x y, x ∈ comments -> y ∈ comments -> rk x <= rk y).

(** [interleave3 t r c o]: [o] is made of the rows of [t], [r] and [c], each
    list's rows in their own order. *)
Inductive interleave3 {A : Type} :
  list A -> list A -> list A -> list A -> Prop :=
| il_nil : interleave3 [] [] [] []
| il_t x t r c o : interleave3 t r c o -> interleave3 (x :: t) r c (x :: o)
| il_r x t r c o : interleave3 t r c o -> interleave3 t (x :: r) c (x :: o)
| il_c x t r c o : interleave3 t r c o -> interleave3 t r (x :: c) (x :: o).

(** Rows still to be emitted from a state. *)
Definition remaining {M} (threads responses comments : list (doc M))
    (s : state M) : nat :=
  (length threads - t_index s)
  + (length responses - r_index s)
  + (length comments - c_index s).

(** No index has run past the end of its list. *)
Definition in_range {M} (threads responses comments : list (doc M))
    (s : state M) : Prop :=
  t_index s <= length threads
  /\ r_index s <= length responses
  /\ c_index s <= length comments.

(** Test rows. *)
Definition row (y m d : Z) (label : string) : doc string :=
  Doc (DocId y m d "") label.

(** ** Queries and the student report *)

(** The Python values the query builders put together: integers, strings,
    booleans, [dict]s and pymongo's ordered [SON]. *)
#[warnings="-register-all"]
Inductive value : Type :=
| VInt (n : Z)
| VStr (s : string)
| VBool (b : bool)
| VDict (d : gmap string value)
| VSon (items : list (string * value)).

(** A course key, of which the builders use [to_deprecated_string()]
    only. *)
Record course_key : Set := CourseKey { to_deprecated_string : string }.

Definition generate_student_forums_query (course_id : course_key) : list value :=
  [ VDict {[ "$match" :=
      VDict {[ "course_id" := VStr (to_deprecated_string course_id) ]} ]};
    VDict {[ "$group" :=
      VDict {[ "_id" := VStr "$author_username";
               "posts" := VDict {[ "$sum" := VInt 1 ]};
               "votes" := VDict {[ "$sum" := VStr "$votes.point" ]} ]} ]} ].

(** [parent_id_check] is [None] by default.  The assignment to
    [query[0]['$match']['parent_id']] is the insertion of the key into the
    [$match] document of the first stage. *)
Definition generate_course_forums_query (course_id : course_key)
    (query_type : string) (parent_id_check : option bool) : list value :=
  let conditions : gmap string value :=
    {[ "course_id" := VStr (to_deprecated_string course_id);
       "_type" := VStr query_type ]} in
  let stages : list value :=
    [ VDict {[ "$project" :=
        VDict {[ "year" := VDict {[ "$year" := VStr "$created_at" ]};
                 "month" := VDict {[ "$month" := VStr "$created_at" ]};
                 "day" := VDict {[ "$dayOfMonth" := VStr "$created_at" ]};
                 "type" := VStr "$_type";
                 "votes" := VStr "$votes" ]} ]};
      VDict {[ "$group" :=
        VDict {[ "_id" := VDict {[ "year" := VStr "$year";
                                   "month" := VStr "$month";
                                   "day" := VStr "$day";
                                   "type" := VStr "$type" ]};
                 "posts" := VDict {[ "$sum" := VInt 1 ]};
                 "net_points" := VDict {[ "$sum" := VStr "$votes.point" ]};
                 "up_votes" := VDict {[ "$sum" := VStr "$votes.up_count" ]};
                 "down_votes" :=
                   VDict {[ "$sum" := VStr "$votes.down_count" ]} ]} ]};
      VDict {[ "$sort" :=
        VSon [("_id.year", VInt 1); ("_id.month", VInt 1);
              ("_id.day", VInt 1)] ]} ] in
  if decide (query_type = "Comment") then
    match parent_id_check with
    | Some check =>
        VDict {[ "$match" :=
          VDict (<["parent_id" := VDict {[ "$exists" := VBool check ]}]>
                   conditions) ]}
          :: stages
    | None => VDict {[ "$match" := VDict conditions ]} :: stages
    end
  else VDict {[ "$match" := VDict conditions ]} :: stages.

(** The exceptions of [collect_student_forums_data]: those of pymongo and
    the [KeyError] of a [dict] subscript. *)
Inductive report_exn : Set :=
| PyMongoError
| KeyError (key : string).

Inductive attempt (A : Type) : Type :=
| Done (a : A)
| Failed (e : report_exn).
Arguments Done {A} a.
Arguments Failed {A} e.

#[global] Instance attempt_ret : MRet attempt := fun _ a => Done a.
#[global] Instance attempt_bind : MBind attempt := fun _ _ f m =>
  match m with
  | Done a => f a
  | Failed e => Failed e
  end.

(** A [dict] subscript [d[key]]. *)
Definition getitem (d : gmap string value) (key : string) : attempt value :=
  match d !! key with
  | Some v => Done v
  | None => Failed (KeyError key)
  end.

(** A list comprehension [[f(x) for x in l]] whose element expression can
    raise: the elements are evaluated in order and the first exception
    ends the evaluation. *)
Fixpoint comprehension {A B} (f : A -> attempt B) (l : list A)
    : attempt (list B) :=
  match l with
  | [] => Done []
  | x :: l' => y ← f x; ys ← comprehension f l'; Done (y :: ys)
  end.

Section student_report.

(** [mongodb.contents.aggregate(query)['result']] on the forum database,
    with the connection that precedes it: the rows of the result, or the
    exception of pymongo. *)
Variable aggregate : list value -> attempt (list (gmap string value)).

(** The [except PyMongoError: raise] clause raises the exception again as
    it is. *)
Definition collect_student_forums_data (course_id : course_key)
    : attempt (list string * list (list value)) :=
  results ← aggregate (generate_student_forums_query course_id);
  parsed_results ←
    comprehension
      (fun result =>
         username ← getitem result "_id";
         posts ← getitem result "posts";
         votes ← getitem result "votes";
         Done [username; posts; votes])
      results;
  let header := ["Username"; "Posts"; "Votes"] in
  Done (header, parsed_results).

End student_report.

(** A row of the student aggregation, for tests. *)
Definition student (username : string) (posts votes : Z)
    : gmap string value :=
  {[ "_id" := VStr username; "posts" := VInt posts; "votes" := VInt votes ]}.

(** A row of an aggregate result that has the three keys the student
    report reads. *)
Definition complete (result : gmap string value) : Prop :=
  is_Some (result !! "_id") /\ is_Some (result !! "posts")
  /\ is_Some (result !! "votes").

(** ** Facts about [datetime.date] *)

Lemma date_le_iff (a b : Date.t) : Date.le a b = true <-> Date.Le a b.
Proof.
  unfold Date.le, Date.Le. destruct a as [ya ma da], b as [yb mb db]; simpl.
  destruct (Z.ltb_spec ya yb), (Z.eqb_spec ya yb), (Z.ltb_spec ma mb),
    (Z.eqb_spec ma mb), (Z.leb_spec da db); simpl;
    split; intros; try discriminate; try reflexivity; lia.
Qed.

Lemma date_le_false_iff (a b : Date.t) : Date.le a b = false <-> ~ Date.Le a b.
Proof.
  rewrite <- date_le_iff. destruct (Date.le a b); split; congruence.
Qed.

(** Turns the comparisons of the context into linear arithmetic. *)
Ltac date_order :=
  repeat match goal with
    | H : Date.le _ _ = true |- _ => apply date_le_iff in H
    | H : Date.le _ _ = false |- _ => apply date_le_false_iff in H
    | H : _ && _ = true |- _ => apply andb_true_iff in H; destruct H
    | H : _ && _ = false |- _ => apply andb_false_iff in H; destruct H
    end;
  unfold Date.Le, Date.max in *; simpl in *; lia.

Lemma Date_Le_refl (a : Date.t) : Date.Le a a.
Proof. date_order. Qed.

Lemma Date_Le_trans (a b c : Date.t) : Date.Le a b -> Date.Le b c -> Date.Le a c.
Proof. intros. date_order. Qed.

Lemma Date_Le_total (a b : Date.t) : Date.Le a b \/ Date.Le b a.
Proof. date_order. Qed.

Lemma Date_Le_antisym (a b : Date.t) : Date.Le a b -> Date.Le b a -> a = b.
Proof.
  destruct a as [ya ma da], b as [yb mb db]. intros.
  assert (ya = yb /\ ma = mb /\ da = db) as (-> & -> & ->) by date_order.
  reflexivity.
Qed.

Lemma days_in_month_range (y m : Z) :
  (1 <= m <= 12)%Z -> (28 <= Date._days_in_month y m <= 31)%Z.
Proof.
  intros Hm. unfold Date._days_in_month.
  assert (m = 1 \/ m = 2 \/ m = 3 \/ m = 4 \/ m = 5 \/ m = 6 \/ m = 7 \/ m = 8
          \/ m = 9 \/ m = 10 \/ m = 11 \/ m = 12)%Z as Hcases by lia.
  destruct (Date._is_leap y);
    repeat (destruct Hcases as [-> | Hcases]); try subst m;
    vm_compute; split; discriminate.
Qed.

Lemma check_date_fields_valid (y m d : Z) :
  Date.valid y m d -> Date._check_date_fields y m d = Returned ().
Proof.
  unfold Date.valid, Date._check_date_fields. intros (Hy & Hm & Hd).
  destruct (Z.leb_spec Date.MINYEAR y), (Z.leb_spec y Date.MAXYEAR),
    (Z.leb_spec 1 m), (Z.leb_spec m 12), (Z.leb_spec 1 d),
    (Z.leb_spec d (Date._days_in_month y m)); simpl; try lia; reflexivity.
Qed.

Lemma check_date_fields_invalid (y m d : Z) :
  ~ Date.valid y m d -> Date._check_date_fields y m d = Raised ValueError.
Proof.
  unfold Date.valid, Date._check_date_fields. intros Hn.
  destruct (Z.leb_spec Date.MINYEAR y), (Z.leb_spec y Date.MAXYEAR),
    (Z.leb_spec 1 m), (Z.leb_spec m 12), (Z.leb_spec 1 d),
    (Z.leb_spec d (Date._days_in_month y m)); simpl; try reflexivity;
    exfalso; apply Hn; lia.
Qed.

Lemma valid_dec (y m d : Z) : Date.valid y m d \/ ~ Date.valid y m d.
Proof. unfold Date.valid. lia. Qed.

Lemma date_valid (y m d : Z) :
  Date.valid y m d -> Date.date y m d = Returned (Date.mk y m d).
Proof.
  intros Hv. unfold Date.date. rewrite check_date_fields_valid by assumption.
  reflexivity.
Qed.

Lemma date_invalid (y m d : Z) :
  ~ Date.valid y m d -> Date.date y m d = Raised ValueError.
Proof.
  intros Hv. unfold Date.date. rewrite check_date_fields_invalid by assumption.
  reflexivity.
Qed.

Lemma date_Returned (y m d : Z) (x : Date.t) :
  Date.date y m d = Returned x -> x = Date.mk y m d /\ Date.valid y m d.
Proof.
  destruct (valid_dec y m d) as [Hv | Hv].
  - rewrite date_valid by assumption. intros [= <-]. auto.
  - rewrite date_invalid by assumption. discriminate.
Qed.

Lemma date_Raised (y m d : Z) (e : exn) :
  Date.date y m d = Raised e -> e = ValueError /\ ~ Date.valid y m d.
Proof.
  destruct (valid_dec y m d) as [Hv | Hv].
  - rewrite date_valid by assumption. discriminate.
  - rewrite date_invalid by assumption. intros [= <-]. auto.
Qed.

(** [date.max] is the largest date that can be constructed. *)
Lemma valid_Le_max (y m d : Z) :
  Date.valid y m d -> Date.Le (Date.mk y m d) Date.max.
Proof.
  intros (Hy & Hm & Hd). pose proof (days_in_month_range y m Hm).
  unfold Date.MINYEAR, Date.MAXYEAR in *. date_order.
Qed.

Lemma date_max_valid : Date.valid 9999 12 31.
Proof.
  unfold Date.valid, Date.MINYEAR, Date.MAXYEAR.
  change (Date._days_in_month 9999 12) with 31%Z. lia.
Qed.

(** ** The loop: one pass *)

Section loop_facts.

Context {M : Type}.
Variables threads responses comments : list (doc M).

Local Abbreviation pass := (body threads responses comments).
Local Abbreviation continues := (cond threads responses comments).
Local Abbreviation loop := (while threads responses comments).
Local Abbreviation left_over := (remaining threads responses comments).
Local Abbreviation bounded := (in_range threads responses comments).

Lemma subscript_Returned (l : list (doc M)) (i : nat) (x : doc M) :
  subscript l i = Returned x <-> l !! i = Some x.
Proof.
  unfold subscript. destruct (l !! i); split; intros H; congruence.
Qed.

Lemma subscript_Raised (l : list (doc M)) (i : nat) (e : exn) :
  subscript l i = Raised e -> e = IndexError /\ length l <= i.
Proof.
  unfold subscript. destruct (l !! i) eqn:E; [discriminate |].
  intros [= <-]. split; [reflexivity | by apply lookup_ge_None].
Qed.

Lemma bound_date_Returned (l : list (doc M)) (i : nat) (d : Date.t) :
  bound_date l i = Returned d ->
  (i = length l /\ d = Date.max)
  \/ (exists x, l !! i = Some x /\ valid_doc x /\ d = dateKey x).
Proof.
  unfold bound_date. destruct (decide (i = length l)) as [-> | Hne].
  - intros [= <-]. by left.
  - unfold subscript. destruct (l !! i) as [x |] eqn:E; [| discriminate].
    simpl. intros [-> Hv]%date_Returned. right. by exists x.
Qed.

Lemma bound_date_row (l : list (doc M)) (i : nat) (d : Date.t) (x : doc M) :
  bound_date l i = Returned d -> l !! i = Some x ->
  valid_doc x /\ d = dateKey x.
Proof.
  intros [[-> _] | (y & Hy & Hv & ->)]%bound_date_Returned Hx.
  - apply lookup_lt_Some in Hx. lia.
  - by simplify_eq.
Qed.

Lemma bound_date_end (l : list (doc M)) : bound_date l (length l) = Returned Date.max.
Proof. unfold bound_date. by rewrite decide_True. Qed.

Lemma bound_date_valid (l : list (doc M)) (i : nat) (x : doc M) :
  l !! i = Some x -> valid_doc x -> bound_date l i = Returned (dateKey x).
Proof.
  intros Hx Hv. unfold bound_date, subscript.
  rewrite decide_False by (apply lookup_lt_Some in Hx; lia).
  rewrite Hx. simpl. by apply date_valid.
Qed.

Lemma bound_date_invalid (l : list (doc M)) (i : nat) (x : doc M) :
  l !! i = Some x -> ~ valid_doc x -> bound_date l i = Raised ValueError.
Proof.
  intros Hx Hv. unfold bound_date, subscript.
  rewrite decide_False by (apply lookup_lt_Some in Hx; lia).
  rewrite Hx. simpl. by apply date_invalid.
Qed.

Lemma bound_date_Le_max (l : list (doc M)) (i : nat) (d : Date.t) :
  bound_date l i = Returned d -> Date.Le d Date.max.
Proof.
  intros [[_ ->] | (x & _ & Hv & ->)]%bound_date_Returned.
  - apply Date_Le_refl.
  - by apply valid_Le_max.
Qed.

(** What a pass that does not raise has done: it appended the row under one
    index, whose date was the least of the three, and advanced that index. *)
Lemma body_Returned (s s' : state M) :
  pass s = Returned s' ->
  exists td rd cd,
    bound_date threads (t_index s) = Returned td
    /\ bound_date responses (r_index s) = Returned rd
    /\ bound_date comments (c_index s) = Returned cd
    /\ ((exists x, threads !! t_index s = Some x /\ valid_doc x
                   /\ td = dateKey x /\ Date.Le td cd /\ Date.Le td rd
                   /\ s' = State (S (t_index s)) (r_index s) (c_index s)
                             (data s ++ [x]))
        \/ (exists x, responses !! r_index s = Some x /\ valid_doc x
                      /\ rd = dateKey x
                      /\ ~ Date.Le td rd /\ Date.Le rd cd
                      /\ s' = State (t_index s) (S (r_index s)) (c_index s)
                                (data s ++ [x]))
        \/ (exists x, comments !! c_index s = Some x /\ valid_doc x
                      /\ cd = dateKey x
                      /\ ~ Date.Le td cd /\ ~ Date.Le rd cd
                      /\ s' = State (t_index s) (r_index s) (S (c_index s))
                                (data s ++ [x]))).
Proof.
  unfold body.
  destruct (bound_date threads (t_index s)) as [td |] eqn:Et; [| discriminate].
  destruct (bound_date responses (r_index s)) as [rd |] eqn:Er; [| discriminate].
  destruct (bound_date comments (c_index s)) as [cd |] eqn:Ec; [| discriminate].
  simpl. intros Hb. exists td, rd, cd. do 3 (split; [reflexivity |]).
  destruct (Date.le td cd && Date.le td rd) eqn:E1;
    [| destruct (Date.le rd td && Date.le rd cd) eqn:E2].
  - destruct (subscript threads (t_index s)) as [x |] eqn:Ex; [| discriminate].
    apply subscript_Returned in Ex. simpl in Hb. injection Hb as <-.
    destruct (bound_date_row _ _ _ _ Et Ex) as [Hv ->].
    left. exists x. split_and!; try done; date_order.
  - destruct (subscript responses (r_index s)) as [x |] eqn:Ex; [| discriminate].
    apply subscript_Returned in Ex. simpl in Hb. injection Hb as <-.
    destruct (bound_date_row _ _ _ _ Er Ex) as [Hv ->].
    right; left. exists x. split_and!; try done; date_order.
  - destruct (subscript comments (c_index s)) as [x |] eqn:Ex; [| discriminate].
    apply subscript_Returned in Ex. simpl in Hb. injection Hb as <-.
    destruct (bound_date_row _ _ _ _ Ec Ex) as [Hv ->].
    right; right. exists x. split_and!; try done; date_order.
Qed.

Lemma bound_date_cases (l : list (doc M)) (i : nat) :
  i <= length l ->
  (i = length l /\ bound_date l i = Returned Date.max)
  \/ (exists x, l !! i = Some x /\ valid_doc x
                /\ bound_date l i = Returned (dateKey x))
  \/ (exists x, l !! i = Some x /\ ~ valid_doc x
                /\ bound_date l i = Raised ValueError).
Proof.
  intros Hi. destruct (decide (i = length l)) as [-> | Hne].
  - left. split; [reflexivity | apply bound_date_end].
  - destruct (lookup_lt_is_Some_2 l i) as [x Hx]; [lia |].
    destruct (valid_dec (year (_id x)) (month (_id x)) (day (_id x)))
      as [Hv | Hv].
    + right; left. exists x. eauto using bound_date_valid.
    + right; right. exists x. eauto using bound_date_invalid.
Qed.

Lemma subscript_end (l : list (doc M)) : subscript l (length l) = Raised IndexError.
Proof. unfold subscript. by rewrite lookup_ge_None_2. Qed.

Lemma continues_false (s : state M) :
  continues s = false <->
  length threads <= t_index s /\ length responses <= r_index s
  /\ length comments <= c_index s.
Proof.
  unfold cond. rewrite !orb_false_iff, !bool_decide_eq_false. lia.
Qed.

Lemma continues_true (s : state M) :
  continues s = true <->
  t_index s < length threads \/ r_index s < length responses
  \/ c_index s < length comments.
Proof.
  unfold cond. rewrite !orb_true_iff, !bool_decide_eq_true. tauto.
Qed.

(** A pass raises [ValueError] as soon as a row under one of the indices
    has an invalid date, whichever row the comparison would have picked. *)
Lemma pass_invalid_row (s : state M) (x : doc M) :
  bounded s ->
  threads !! t_index s = Some x \/ responses !! r_index s = Some x
  \/ comments !! c_index s = Some x ->
  ~ valid_doc x ->
  pass s = Raised ValueError.
Proof.
  intros (Ht & Hr & Hc) Hx Hv. unfold body.
  destruct (bound_date_cases threads (t_index s) Ht)
    as [[Hti ->] | [(t & Hlt & Hvt & ->) | (t & Hlt & Hvt & ->)]];
    [| | reflexivity]; simpl.
  all: destruct (bound_date_cases responses (r_index s) Hr)
    as [[Hri ->] | [(r & Hlr & Hvr & ->) | (r & Hlr & Hvr & ->)]];
    [| | reflexivity]; simpl.
  all: destruct (bound_date_cases comments (c_index s) Hc)
    as [[Hci ->] | [(c & Hlc & Hvc & ->) | (c & Hlc & Hvc & ->)]];
    [| | reflexivity]; simpl.
  all: exfalso; destruct Hx as [Hx | [Hx | Hx]];
    try (apply lookup_lt_Some in Hx; lia); by simplify_eq.
Qed.

(** The two ways a pass can raise. *)
Lemma pass_Raised (s : state M) (e : exn) :
  bounded s -> continues s = true -> pass s = Raised e ->
  (e = ValueError
   /\ exists x, (threads !! t_index s = Some x \/ responses !! r_index s = Some x
                 \/ comments !! c_index s = Some x)
                /\ ~ valid_doc x)
  \/ (e = IndexError
      /\ t_index s = length threads
      /\ exists x, (responses !! r_index s = Some x
                    \/ comments !! c_index s = Some x)
                   /\ valid_doc x /\ at_date_max x).
Proof.
  intros (Ht & Hr & Hc) Hgo%continues_true. unfold body.
  destruct (bound_date_cases threads (t_index s) Ht)
    as [[Hti ->] | [(t & Hlt & Hvt & ->) | (t & Hlt & Hvt & ->)]]; simpl;
    [| | intros [= <-]; left; eauto 6].
  all: destruct (bound_date_cases responses (r_index s) Hr)
    as [[Hri ->] | [(r & Hlr & Hvr & ->) | (r & Hlr & Hvr & ->)]]; simpl;
    [| | intros [= <-]; left; eauto 6].
  all: destruct (bound_date_cases comments (c_index s) Hc)
    as [[Hci ->] | [(c & Hlc & Hvc & ->) | (c & Hlc & Hvc & ->)]]; simpl;
    [| | intros [= <-]; left; eauto 6].
  all: repeat match goal with
         | H : valid_doc ?x |- _ =>
             lazymatch goal with
             | _ : Date.Le (dateKey x) Date.max |- _ => fail
             | _ => pose proof (valid_Le_max _ _ _ H : Date.Le (dateKey x) Date.max)
             end
         end.
  all: repeat match goal with
         | H : ?i = length ?l |- context [subscript ?l ?i] =>
             rewrite H, subscript_end
         | H : ?l !! ?i = Some ?x |- context [subscript ?l ?i] =>
             rewrite (proj2 (subscript_Returned l i x) H)
         end.
  all: repeat match goal with
         | |- context [Date.le ?a ?b] => destruct (Date.le a b) eqn:?
         end; simpl; try discriminate.
  all: intros [= <-]; right; split_and!; try done.
  all: try (exfalso; date_order).
  all: try (exfalso; lia).
  all: try (exists r; split_and!; [by left | done |];
            apply Date_Le_antisym; date_order).
  all: try (exists c; split_and!; [by right | done |];
            apply Date_Le_antisym; date_order).
Qed.

(** ** The loop: termination and invariants *)

Lemma pass_left_over (s s' : state M) :
  pass s = Returned s' -> left_over s' < left_over s.
Proof.
  intros (td & rd & cd & _ & _ & _ & Hcase)%body_Returned.
  destruct Hcase as [(x & Hx & _ & _ & _ & _ & ->)
                    | [(x & Hx & _ & _ & _ & _ & ->)
                      | (x & Hx & _ & _ & _ & _ & ->)]];
    apply lookup_lt_Some in Hx; unfold remaining; simpl; lia.
Qed.

Lemma pass_bounded (s s' : state M) :
  bounded s -> pass s = Returned s' -> bounded s'.
Proof.
  intros (Ht & Hr & Hc) (td & rd & cd & _ & _ & _ & Hcase)%body_Returned.
  destruct Hcase as [(x & Hx & _ & _ & _ & _ & ->)
                    | [(x & Hx & _ & _ & _ & _ & ->)
                      | (x & Hx & _ & _ & _ & _ & ->)]];
    apply lookup_lt_Some in Hx; unfold in_range; simpl; lia.
Qed.

Lemma initial_bounded : bounded initial.
Proof. unfold in_range; simpl; lia. Qed.

(** The loop is left, by [return] or by an exception, within
    [remaining s + 1] unrollings. *)
Lemma loop_terminates (fuel : nat) (s : state M) :
  left_over s < fuel -> is_Some (loop fuel s).
Proof.
  revert s. induction fuel as [| fuel IH]; intros s Hlt; [lia |]. simpl.
  destruct (continues s); [| by eexists].
  destruct (pass s) as [s' |] eqn:Ep; [| by eexists].
  apply IH. apply pass_left_over in Ep. lia.
Qed.

(** More fuel than needed does not change the outcome. *)
Lemma loop_fuel_mono (fuel fuel' : nat) (s : state M) (r : result (list (doc M))) :
  fuel <= fuel' -> loop fuel s = Some r -> loop fuel' s = Some r.
Proof.
  revert fuel' s. induction fuel as [| fuel IH]; intros fuel' s Hle; [done |].
  destruct fuel' as [| fuel']; [lia |]. simpl.
  destruct (continues s); [| done].
  destruct (pass s); [| done]. apply IH. lia.
Qed.

(** Hoare-style rule for a loop that returns: an invariant of the passes
    holds of the state in which the condition fails. *)
Lemma loop_invariant (I : state M -> Prop) :
  (forall s s', I s -> continues s = true -> pass s = Returned s' -> I s') ->
  forall fuel s out,
    I s -> loop fuel s = Some (Returned out) ->
    exists s', I s' /\ continues s' = false /\ data s' = out.
Proof.
  intros Hstep fuel. induction fuel as [| fuel IH]; intros s out HI; [done |].
  simpl. destruct (continues s) eqn:Ec.
  - destruct (pass s) as [s' |] eqn:Ep; [| done]. eauto.
  - intros [= <-]. eauto.
Qed.

(** A loop that raises does so in a pass from a state within range. *)
Lemma loop_Raised (fuel : nat) (s : state M) (e : exn) :
  bounded s -> loop fuel s = Some (Raised e) ->
  exists s', bounded s' /\ continues s' = true /\ pass s' = Raised e.
Proof.
  revert s. induction fuel as [| fuel IH]; intros s Hb; [done |]. simpl.
  destruct (continues s) eqn:Ec; [| done].
  destruct (pass s) as [s' |] eqn:Ep.
  - apply IH. by eapply pass_bounded.
  - intros [= <-]. eauto.
Qed.

(** A loop whose passes never raise returns. *)
Lemma loop_returns (fuel : nat) (s : state M) :
  (forall s', bounded s' -> continues s' = true -> exists s'', pass s' = Returned s'') ->
  bounded s -> left_over s < fuel ->
  exists out, loop fuel s = Some (Returned out).
Proof.
  intros Hpass. revert s. induction fuel as [| fuel IH]; intros s Hb Hlt; [lia |].
  simpl. destruct (continues s) eqn:Ec; [| eauto].
  destruct (Hpass s Hb Ec) as [s' Ep]. rewrite Ep.
  apply IH; [by eapply pass_bounded |]. apply pass_left_over in Ep. lia.
Qed.

End loop_facts.

(** ** Interleavings *)

Lemma interleave3_snoc_t {A} (x : A) (t r c o : list A) :
  interleave3 t r c o -> interleave3 (t ++ [x]) r c (o ++ [x]).
Proof.
  induction 1; simpl; try by constructor.
  apply il_t, il_nil.
Qed.

Lemma interleave3_snoc_r {A} (x : A) (t r c o : list A) :
  interleave3 t r c o -> interleave3 t (r ++ [x]) c (o ++ [x]).
Proof.
  induction 1; simpl; try by constructor.
  apply il_r, il_nil.
Qed.

Lemma interleave3_snoc_c {A} (x : A) (t r c o : list A) :
  interleave3 t r c o -> interleave3 t r (c ++ [x]) (o ++ [x]).
Proof.
  induction 1; simpl; try by constructor.
  apply il_c, il_nil.
Qed.

Lemma interleave3_length {A} (t r c o : list A) :
  interleave3 t r c o -> length o = length t + length r + length c.
Proof. induction 1; simpl; lia. Qed.

Lemma interleave3_Permutation {A} (t r c o : list A) :
  interleave3 t r c o -> o ≡ₚ t ++ r ++ c.
Proof.
  induction 1 as [| x t r c o _ IH | x t r c o _ IH | x t r c o _ IH]; simpl.
  - done.
  - by rewrite IH.
  - rewrite IH. apply Permutation_middle.
  - rewrite IH, !app_assoc. apply Permutation_middle.
Qed.

Lemma interleave3_single {A} (t r c o : list A) :
  interleave3 t r c o ->
  (r = [] -> c = [] -> o = t) /\ (t = [] -> c = [] -> o = r)
  /\ (t = [] -> r = [] -> o = c).
Proof.
  induction 1 as [| x t r c o _ (IHt & IHr & IHc) | x t r c o _ (IHt & IHr & IHc)
                 | x t r c o _ (IHt & IHr & IHc)];
    split_and!; intros; simplify_eq; f_equal; auto.
Qed.

(** ** The merge as a whole *)

Section merge_facts.

Context {M : Type}.
Variables threads responses comments : list (doc M).

Local Abbreviation pass := (body threads responses comments).
Local Abbreviation continues := (cond threads responses comments).
Local Abbreviation loop := (while threads responses comments).
Local Abbreviation bounded := (in_range threads responses comments).
Local Abbreviation merge := (merge_join_course_forums threads responses comments).

(** The merge always comes to an end: it returns a list or raises. *)
Lemma merge_terminates : exists r, merge = Some r.
Proof.
  apply (loop_terminates threads responses comments).
  unfold remaining; simpl. lia.
Qed.

(** A returned list is an interleaving of the three inputs. *)
Lemma merge_interleaves (out : list (doc M)) :
  merge = Some (Returned out) -> interleave3 threads responses comments out.
Proof.
  intros Hm.
  eapply (loop_invariant threads responses comments
            (fun s => interleave3 (take (t_index s) threads)
                        (take (r_index s) responses)
                        (take (c_index s) comments) (data s)))
    in Hm as (s & Hs & (Ht & Hr & Hc)%continues_false & <-);
    [| | apply il_nil].
  - by rewrite !take_ge in Hs.
  - intros s s' HI _ (td & rd & cd & _ & _ & _ & Hcase)%body_Returned.
    destruct Hcase as [(x & Hx & _ & _ & _ & _ & ->)
                      | [(x & Hx & _ & _ & _ & _ & ->)
                        | (x & Hx & _ & _ & _ & _ & ->)]]; simpl;
      rewrite (take_S_r _ _ _ Hx);
      auto using interleave3_snoc_t, interleave3_snoc_r, interleave3_snoc_c.
Qed.

(** A returned list means that every date was accepted by [date] and that
    no response and no comment was dated [date.max]. *)
Lemma merge_Returned_inputs (out : list (doc M)) :
  merge = Some (Returned out) ->
  Forall valid_doc (threads ++ responses ++ comments)
  /\ Forall (fun x => ~ at_date_max x) (responses ++ comments).
Proof.
  intros Hm.
  eapply (loop_invariant threads responses comments
            (fun s => (Forall valid_doc (take (t_index s) threads)
                       /\ Forall valid_doc (take (r_index s) responses)
                       /\ Forall valid_doc (take (c_index s) comments))
                      /\ Forall (fun x => ~ at_date_max x)
                           (take (r_index s) responses)
                      /\ Forall (fun x => ~ at_date_max x)
                           (take (c_index s) comments)))
    in Hm as (s & Hs & (Ht & Hr & Hc)%continues_false & <-).
  - rewrite !take_ge in Hs by done. rewrite !Forall_app. tauto.
  - intros s s' ((Hvt & Hvr & Hvc) & Hmr & Hmc) _
      (td & rd & cd & Etd%bound_date_Le_max & _ & _ & Hcase)%body_Returned.
    destruct Hcase as [(x & Hx & Hv & _ & _ & _ & ->)
                      | [(x & Hx & Hv & -> & Hlt & _ & ->)
                        | (x & Hx & Hv & -> & Hlt & _ & ->)]]; simpl;
      rewrite (take_S_r _ _ _ Hx), ?Forall_app, ?Forall_singleton;
      split_and!; try done.
    + unfold at_date_max. intros Heq. rewrite Heq in Hlt. contradiction.
    + unfold at_date_max. intros Heq. rewrite Heq in Hlt. contradiction.
  - simpl. split_and!; constructor.
Qed.

(** The only rows that make a subscript fail are responses and comments
    dated [date.max]. *)
Lemma merge_IndexError :
  merge = Some (Raised IndexError) ->
  exists x, x ∈ responses ++ comments /\ valid_doc x /\ at_date_max x.
Proof.
  intros (s & Hb & Hc & Hp)%loop_Raised; [| apply initial_bounded].
  destruct (pass_Raised _ _ _ s _ Hb Hc Hp)
    as [[[=] _] | (_ & _ & x & Hx & Hv & Hmax)].
  exists x. rewrite elem_of_app.
  destruct Hx as [Hx | Hx]; apply list_elem_of_lookup_2 in Hx; auto.
Qed.

(** [ValueError] comes from a row whose triple [date] rejects. *)
Lemma merge_ValueError :
  merge = Some (Raised ValueError) ->
  exists x, x ∈ threads ++ responses ++ comments /\ ~ valid_doc x.
Proof.
  intros (s & Hb & Hc & Hp)%loop_Raised; [| apply initial_bounded].
  destruct (pass_Raised _ _ _ s _ Hb Hc Hp)
    as [(_ & x & Hx & Hv) | [[=] _]].
  exists x. rewrite !elem_of_app.
  destruct Hx as [Hx | [Hx | Hx]]; apply list_elem_of_lookup_2 in Hx; auto.
Qed.

(** With valid dates throughout and no response or comment dated
    [date.max], the merge returns. *)
Lemma merge_returns :
  Forall valid_doc (threads ++ responses ++ comments) ->
  Forall (fun x => ~ at_date_max x) (responses ++ comments) ->
  exists out, merge = Some (Returned out).
Proof.
  intros Hv Hmax. destruct merge_terminates as [[out | [|]] Hm]; [eauto | |].
  - apply merge_ValueError in Hm as (x & Hx & Hnv).
    rewrite Forall_forall in Hv. naive_solver.
  - apply merge_IndexError in Hm as (x & Hx & _ & Hx').
    rewrite Forall_forall in Hmax. naive_solver.
Qed.

(** *** Order of the output *)

Lemma date_le_trans : Transitive (@date_le M).
Proof. intros x y z. apply Date_Le_trans. Qed.

Lemma chronological_strongly (l : list (doc M)) :
  chronological l -> StronglySorted date_le l.
Proof. apply (@Sorted_StronglySorted _ _ date_le_trans). Qed.

Lemma sorted_after (l : list (doc M)) (i : nat) (x y : doc M) :
  StronglySorted date_le l -> l !! i = Some x -> y ∈ drop (S i) l ->
  date_le x y.
Proof.
  intros Hs Hx Hy. rewrite <- (take_drop_middle l i x Hx) in Hs.
  apply StronglySorted_app_1_r, StronglySorted_cons in Hs as [Hall _].
  rewrite Forall_forall in Hall. auto.
Qed.

(** In a chronological list the date under the index bounds from below
    the dates of all rows from the index on. *)
Lemma peek_lower_bound (l : list (doc M)) (i : nat) (d : Date.t) (y : doc M) :
  StronglySorted date_le l -> bound_date l i = Returned d -> y ∈ drop i l ->
  Date.Le d (dateKey y).
Proof.
  intros Hs [[-> ->] | (x & Hx & _ & ->)]%bound_date_Returned Hy.
  - rewrite drop_ge in Hy by done. by apply elem_of_nil in Hy.
  - rewrite (drop_S _ _ _ Hx) in Hy. apply elem_of_cons in Hy as [-> | Hy].
    + apply Date_Le_refl.
    + by eapply sorted_after.
Qed.

Lemma strongly_sorted_lookup {A} (R : relation A) (l : list A) (i j : nat) (x y : A) :
  StronglySorted R l -> i < j -> l !! i = Some x -> l !! j = Some y -> R x y.
Proof.
  intros Hs Hij Hx Hy. rewrite <- (take_drop_middle l i x Hx) in Hs.
  apply StronglySorted_app_1_r, StronglySorted_cons in Hs as [Hall _].
  rewrite Forall_forall in Hall. apply Hall.
  apply list_elem_of_lookup. exists (j - S i). rewrite lookup_drop.
  by replace (S i + (j - S i)) with j by lia.
Qed.

(** On chronological inputs the rows come out by date and, among rows of
    one date, in the order of the ranking. *)
Lemma merge_emit_order (rk : doc M -> nat) (out : list (doc M)) :
  chronological threads -> chronological responses -> chronological comments ->
  ranked rk threads responses comments ->
  merge = Some (Returned out) ->
  StronglySorted (emit_le rk) out.
Proof.
  intros Hst%chronological_strongly Hsr%chronological_strongly
    Hsc%chronological_strongly (Hkt & Hkr & Hkc) Hm.
  eapply (loop_invariant threads responses comments
            (fun s => StronglySorted (emit_le rk) (data s)
                      /\ forall x y, x ∈ data s ->
                           y ∈ drop (t_index s) threads
                               ++ drop (r_index s) responses
                               ++ drop (c_index s) comments ->
                           emit_le rk x y))
    in Hm as (s & [Hs _] & _ & <-); [done | | ].
  - intros s s' [Hs Hrest] _ (td & rd & cd & Etd & Erd & Ecd & Hcase)%body_Returned.
    pose proof (fun y => peek_lower_bound _ _ _ y Hst Etd) as Lt.
    pose proof (fun y => peek_lower_bound _ _ _ y Hsr Erd) as Lr.
    pose proof (fun y => peek_lower_bound _ _ _ y Hsc Ecd) as Lc.
    destruct Hcase as [(x & Hx & _ & -> & H1 & H2 & ->)
                      | [(x & Hx & _ & -> & H1 & H2 & ->)
                        | (x & Hx & _ & -> & H1 & H2 & ->)]]; simpl;
      pose proof (list_elem_of_lookup_2 _ _ _ Hx) as Hin;
      rewrite (drop_S _ _ _ Hx) in Hrest.
    all: split;
      [ apply StronglySorted_app_2;
        [ intros x1 x2 Hx1 ->%list_elem_of_singleton; apply Hrest; [done |];
          rewrite !elem_of_app, ?elem_of_cons; auto
        | done
        | repeat constructor ]
      | intros x' y [Hx' | ->%list_elem_of_singleton]%elem_of_app Hy;
        [ apply Hrest; [done |]; revert Hy;
          rewrite !elem_of_app, ?elem_of_cons; tauto |] ].
    all: rewrite !elem_of_app in Hy; destruct Hy as [Hy | [Hy | Hy]].
    all: try (pose proof (sorted_after _ _ _ _ Hst Hx Hy) as Hsame).
    all: try (pose proof (sorted_after _ _ _ _ Hsr Hx Hy) as Hsame).
    all: try (pose proof (sorted_after _ _ _ _ Hsc Hx Hy) as Hsame).
    all: try (pose proof (Lt _ Hy) as Hlow).
    all: try (pose proof (Lr _ Hy) as Hlow).
    all: try (pose proof (Lc _ Hy) as Hlow).
    all: apply subseteq_drop in Hy.
    all: clear Hrest Hs Lt Lr Lc Hst Hsr Hsc.
    all: unfold emit_le, date_le in *; split; [date_order |].
    all: first [ intros _;
                 first [ apply Hkt; [done | rewrite !elem_of_app; by auto]
                       | apply Hkr; [done | rewrite !elem_of_app; by auto]
                       | apply Hkc; done ]
               | intros ?; exfalso; date_order ].
  - simpl. split; [constructor | intros x y Hx; by apply elem_of_nil in Hx].
Qed.

End merge_facts.

(** ** The merge does not look at the metrics *)

Section relabelling.

Context {M N : Type} (f : M -> N).
Variables threads responses comments : list (doc M).

Lemma bound_date_relabel (l : list (doc M)) (i : nat) :
  bound_date (relabel f <$> l) i = bound_date l i.
Proof.
  unfold bound_date, subscript. rewrite length_fmap, list_lookup_fmap.
  destruct (decide (i = length l)); [done |]. by destruct (l !! i).
Qed.

Lemma subscript_relabel (l : list (doc M)) (i : nat) :
  subscript (relabel f <$> l) i = relabel f <$> subscript l i.
Proof.
  unfold subscript. rewrite list_lookup_fmap. by destruct (l !! i).
Qed.

Lemma cond_relabel (s : state M) :
  cond (relabel f <$> threads) (relabel f <$> responses)
    (relabel f <$> comments) (relabel_state f s)
  = cond threads responses comments s.
Proof. unfold cond. by rewrite !length_fmap. Qed.

Lemma body_relabel (s : state M) :
  body (relabel f <$> threads) (relabel f <$> responses)
    (relabel f <$> comments) (relabel_state f s)
  = relabel_state f <$> body threads responses comments s.
Proof.
  unfold body. simpl. rewrite !bound_date_relabel, !subscript_relabel.
  destruct (bound_date threads (t_index s)) as [td |]; [| done].
  destruct (bound_date responses (r_index s)) as [rd |]; [| done].
  destruct (bound_date comments (c_index s)) as [cd |]; [| done]. simpl.
  destruct (Date.le td cd && Date.le td rd);
    [| destruct (Date.le rd td && Date.le rd cd)].
  - destruct (subscript threads (t_index s)); [| done]. simpl.
    unfold relabel_state. simpl. by rewrite fmap_app.
  - destruct (subscript responses (r_index s)); [| done]. simpl.
    unfold relabel_state. simpl. by rewrite fmap_app.
  - destruct (subscript comments (c_index s)); [| done]. simpl.
    unfold relabel_state. simpl. by rewrite fmap_app.
Qed.

Lemma while_relabel (fuel : nat) (s : state M) :
  while (relabel f <$> threads) (relabel f <$> responses)
    (relabel f <$> comments) fuel (relabel_state f s)
  = relabel_outcome f (while threads responses comments fuel s).
Proof.
  revert s. induction fuel as [| fuel IH]; intros s; [done |]. simpl.
  rewrite cond_relabel, body_relabel.
  destruct (cond threads responses comments s); [| done].
  destruct (body threads responses comments s) as [s' |]; [| done]. simpl.
  apply IH.
Qed.


End relabelling.

(** ** Rows marked with their kind *)

Lemma untag_tag {M} (k : kind) (x : doc M) : untag (tag k x) = x.
Proof. by destruct x. Qed.

Lemma untag_tag_list {M} (k : kind) (l : list (doc M)) :
  relabel snd <$> (tag k <$> l) = l.
Proof.
  rewrite <- list_fmap_compose. rewrite <- (list_fmap_id l) at 2.
  apply list_fmap_ext. intros _ x _. apply untag_tag.
Qed.

Lemma chronological_tag {M} (k : kind) (l : list (doc M)) :
  chronological l -> chronological (tag k <$> l).
Proof. apply Sorted_fmap. auto. Qed.

Lemma kind_of_tagged {M} (k : kind) (l : list (doc M)) (x : doc (kind * M)) :
  x ∈ tag k <$> l -> kind_of x = k.
Proof. intros (y & -> & _)%list_elem_of_fmap. reflexivity. Qed.

Lemma ranked_tagged {M} (threads responses comments : list (doc M)) :
  ranked (fun x => rank (kind_of x)) (tag Thread <$> threads)
    (tag Response <$> responses) (tag Comment <$> comments).
Proof.
  unfold ranked. split_and!; intros x y Hx Hy;
    rewrite ?elem_of_app in Hy;
    apply kind_of_tagged in Hx; rewrite Hx;
    repeat match goal with H : _ \/ _ |- _ => destruct H as [Hy | Hy] end;
    apply kind_of_tagged in Hy;
    rewrite Hy; simpl; lia.
Qed.

(** The marks do not change what the merge does. *)
Lemma merge_tagged {M} (threads responses comments : list (doc M)) :
  merge_join_course_forums threads responses comments
  = relabel_outcome snd
      (merge_join_course_forums (tag Thread <$> threads)
         (tag Response <$> responses) (tag Comment <$> comments)).
Proof.
  unfold merge_join_course_forums.
  rewrite <- (while_relabel snd _ _ _ _ initial), !length_fmap.
  by rewrite !untag_tag_list.
Qed.

(** ** What the merge returns *)

Lemma interleave3_filter {A} (P : A -> Prop) `{!forall x, Decision (P x)}
    (t r c o : list A) :
  interleave3 t r c o ->
  Forall P t -> Forall (fun x => ~ P x) r -> Forall (fun x => ~ P x) c ->
  filter P o = t.
Proof.
  induction 1 as [| x t r c o _ IH | x t r c o _ IH | x t r c o _ IH];
    intros Ht Hr Hc.
  - done.
  - apply Forall_cons in Ht as [Hx Ht]. rewrite filter_cons_True by done.
    f_equal. auto.
  - apply Forall_cons in Hr as [Hx Hr]. rewrite filter_cons_False by done. auto.
  - apply Forall_cons in Hc as [Hx Hc]. rewrite filter_cons_False by done. auto.
Qed.

(** X2.  The merge returns a list exactly when every date is valid and no
    response and no comment is dated [date.max]; threads may be. *)
Lemma merge_returns_iff {M} (threads responses comments : list (doc M)) :
  (exists out, merge_join_course_forums threads responses comments
               = Some (Returned out))
  <-> Forall valid_doc (threads ++ responses ++ comments)
      /\ Forall (fun x => ~ at_date_max x) (responses ++ comments).
Proof.
  split.
  - intros [out Hm]. by eapply merge_Returned_inputs.
  - intros [Hv Hmax]. by apply merge_returns.
Qed.

(** X3.  With valid dates and no response or comment dated [date.max],
    sorted or not, the merge returns a list that keeps every row: it is an
    interleaving of the inputs, so it has their total length and is a
    permutation of their concatenation. *)
Lemma merge_conserves {M} (threads responses comments : list (doc M)) :
  Forall valid_doc (threads ++ responses ++ comments) ->
  Forall (fun x => ~ at_date_max x) (responses ++ comments) ->
  exists out,
    merge_join_course_forums threads responses comments = Some (Returned out)
    /\ interleave3 threads responses comments out
    /\ length out = length threads + length responses + length comments
    /\ out ≡ₚ threads ++ responses ++ comments.
Proof.
  intros Hv Hmax. destruct (merge_returns _ _ _ Hv Hmax) as [out Hm].
  exists out. pose proof (merge_interleaves _ _ _ _ Hm) as Hil.
  split_and!; [done | done | by apply interleave3_length
              | by apply interleave3_Permutation].
Qed.

(** X4.  Whenever the merge returns, sorted inputs or not, the rows of
    each input list are found in the output in the order they had in that
    list: with the rows marked by their list, the rows of one mark are the
    list itself. *)
Lemma merge_stable {M} (threads responses comments : list (doc M))
    (out : list (doc (kind * M))) :
  merge_join_course_forums (tag Thread <$> threads)
    (tag Response <$> responses) (tag Comment <$> comments)
  = Some (Returned out) ->
  untag <$> filter (fun x => kind_of x = Thread) out = threads
  /\ untag <$> filter (fun x => kind_of x = Response) out = responses
  /\ untag <$> filter (fun x => kind_of x = Comment) out = comments.
Proof.
  intros Hil%merge_interleaves.
  assert (forall k k' (l : list (doc M)), k <> k' ->
            Forall (fun x => ~ kind_of x = k) (tag k' <$> l)) as Hne.
  { intros k k' l Hk. apply Forall_forall. intros x ->%kind_of_tagged. congruence. }
  assert (forall k (l : list (doc M)),
            Forall (fun x => kind_of x = k) (tag k <$> l)) as Heq.
  { intros k l. apply Forall_forall. intros x. apply kind_of_tagged. }
  split_and!.
  - rewrite (interleave3_filter _ _ _ _ _ Hil) by auto. apply untag_tag_list.
  - assert (interleave3 (tag Response <$> responses) (tag Thread <$> threads)
              (tag Comment <$> comments) out) as Hil'.
    { clear Hne Heq. induction Hil; by constructor. }
    rewrite (interleave3_filter _ _ _ _ _ Hil') by auto. apply untag_tag_list.
  - assert (interleave3 (tag Comment <$> comments) (tag Thread <$> threads)
              (tag Response <$> responses) out) as Hil'.
    { clear Hne Heq. induction Hil; by constructor. }
    rewrite (interleave3_filter _ _ _ _ _ Hil') by auto. apply untag_tag_list.
Qed.

(** A list of threads alone is returned as it is, whatever its dates. *)
Lemma merge_threads_only {M} (S : list (doc M)) :
  Forall valid_doc S -> merge_join_course_forums S [] [] = Some (Returned S).
Proof.
  intros Hv. destruct (merge_returns S [] []) as (out & Hm).
  - by rewrite app_nil_r.
  - constructor.
  - pose proof (merge_interleaves _ _ _ _ Hm) as Hil.
    apply interleave3_single in Hil as (Heq & _). by rewrite Hm, Heq.
Qed.

(** A list of responses alone, or of comments alone, is returned as it is
    when none of its rows is dated [date.max]. *)
Lemma merge_responses_only {M} (S : list (doc M)) :
  Forall valid_doc S -> Forall (fun x => ~ at_date_max x) S ->
  merge_join_course_forums [] S [] = Some (Returned S).
Proof.
  intros Hv Hmax. destruct (merge_returns [] S []) as (out & Hm).
  - by rewrite app_nil_r.
  - by rewrite app_nil_r.
  - pose proof (merge_interleaves _ _ _ _ Hm) as Hil.
    apply interleave3_single in Hil as (_ & Heq & _). by rewrite Hm, Heq.
Qed.

Lemma merge_comments_only {M} (S : list (doc M)) :
  Forall valid_doc S -> Forall (fun x => ~ at_date_max x) S ->
  merge_join_course_forums [] [] S = Some (Returned S).
Proof.
  intros Hv Hmax. destruct (merge_returns [] [] S) as (out & Hm).
  - done.
  - done.
  - pose proof (merge_interleaves _ _ _ _ Hm) as Hil.
    apply interleave3_single in Hil as (_ & _ & Heq). by rewrite Hm, Heq.
Qed.

Lemma emit_order_chronological {M} (rk : doc M -> nat) (l : list (doc M)) :
  StronglySorted (emit_le rk) l -> chronological l.
Proof.
  intros Hs. apply StronglySorted_Sorted.
  induction Hs as [| x l _ IH Hall]; constructor; [done |].
  eapply Forall_impl; [exact Hall |]. by intros y [Hle _].
Qed.

(** Closes [chronological l] and [Forall valid_doc l] for a list of
    given rows. *)
Ltac given_rows :=
  lazymatch goal with
  | |- chronological _ =>
      unfold chronological;
      repeat first [ apply Sorted_nil | apply Sorted_cons
                   | apply HdRel_nil | apply HdRel_cons ];
      unfold date_le, Date.Le; simpl; lia
  | |- Forall _ _ =>
      repeat first [ apply Forall_nil_2 | apply Forall_cons_2 ];
      vm_compute; repeat split; discriminate
  end.

(** ** Properties of the specification *)

(** C1.  On three lists in chronological order, rows of different kinds
    that carry the same date leave the merge in the order thread, response,
    comment: with every row marked by the list it comes from (the marks do
    not change the merge), a row that comes out before another row of the
    same date never has the later kind.  In particular scenario B yields
    R1, C1, T2. *)
Theorem tie_break_order {M} (threads responses comments : list (doc M)) :
  chronological threads -> chronological responses -> chronological comments ->
  merge_join_course_forums threads responses comments
  = relabel_outcome snd
      (merge_join_course_forums (tag Thread <$> threads)
         (tag Response <$> responses) (tag Comment <$> comments))
  /\ (forall out,
        merge_join_course_forums (tag Thread <$> threads)
          (tag Response <$> responses) (tag Comment <$> comments)
        = Some (Returned out) ->
        forall i j x y,
          i < j -> out !! i = Some x -> out !! j = Some y ->
          dateKey x = dateKey y ->
          rank (kind_of x) <= rank (kind_of y))
  /\ merge_join_course_forums [row 2021 2 1 "T2"] [row 2021 1 1 "R1"]
       [row 2021 1 1 "C1"]
     = Some (Returned [row 2021 1 1 "R1"; row 2021 1 1 "C1"; row 2021 2 1 "T2"]).
Proof.
  intros Ht Hr Hc. split_and!; [apply merge_tagged | | reflexivity].
  intros out Hm i j x y Hij Hx Hy Heq.
  pose proof (merge_emit_order _ _ _ (fun x => rank (kind_of x)) out
                (chronological_tag _ _ Ht) (chronological_tag _ _ Hr)
                (chronological_tag _ _ Hc) (ranked_tagged _ _ _) Hm) as Hs.
  destruct (strongly_sorted_lookup _ _ i j x y Hs Hij Hx Hy) as [_ Hrank].
  apply Hrank. unfold date_le. rewrite Heq. apply Date_Le_refl.
Qed.

Lemma tie_break_order_witness :
  rank (kind_of (tag Response (row 2021 1 1 "R1")))
  <= rank (kind_of (tag Comment (row 2021 1 1 "C1"))).
Proof.
  destruct (tie_break_order [row 2021 2 1 "T2"] [row 2021 1 1 "R1"]
              [row 2021 1 1 "C1"]) as (_ & Hord & _);
    [given_rows .. |].
  eapply (Hord _ eq_refl 0 1); [lia | reflexivity | reflexivity | reflexivity].
Defined.

(** C3.  On three lists in chronological order whose dates are all valid,
    the merge comes to an end and the rows it returns are in chronological
    order from the first to the last.  (The only other outcome is the
    [IndexError] of a response or comment dated [date.max], which outputs
    no rows.) *)
Theorem merge_chronological {M} (threads responses comments : list (doc M)) :
  chronological threads -> chronological responses -> chronological comments ->
  Forall valid_doc (threads ++ responses ++ comments) ->
  exists r,
    merge_join_course_forums threads responses comments = Some r
    /\ match r with
       | Returned out => chronological out
       | Raised e =>
           e = IndexError
           /\ exists x, x ∈ responses ++ comments /\ at_date_max x
       end.
Proof.
  intros Ht Hr Hc Hv.
  destruct (merge_terminates threads responses comments) as [[out | e] Hm];
    eexists; (split; [exact Hm |]).
  - apply (emit_order_chronological (fun _ => 0)).
    apply (merge_emit_order threads responses comments _ out Ht Hr Hc);
      [| exact Hm].
    unfold ranked. split_and!; intros; lia.
  - destruct e.
    + apply merge_ValueError in Hm as (x & Hx & Hnv).
      rewrite Forall_forall in Hv. naive_solver.
    + apply merge_IndexError in Hm as (x & Hx & _ & Hmax). eauto.
Qed.

Lemma merge_chronological_witness :
  chronological
    [row 2021 1 1 "T1"; row 2021 1 2 "R1"; row 2021 1 2 "C1"; row 2021 1 3 "T2"].
Proof.
  destruct (merge_chronological
              [row 2021 1 1 "T1"; row 2021 1 3 "T2"] [row 2021 1 2 "R1"]
              [row 2021 1 2 "C1"]) as (r & Hm & Hr).
  - given_rows.
  - given_rows.
  - given_rows.
  - given_rows.
  - vm_compute in Hm. injection Hm as <-. exact Hr.
Defined.

(** C9.  A row whose (year, month, day) [date] rejects makes the merge
    raise, whatever list it is in, so that no list is returned: the row is
    neither dropped nor given another date.  The exception is the
    [ValueError] of [date], raised by the very pass in which the row comes
    under its index -- unless a response or comment dated [date.max] had
    the merge raise [IndexError] before.  Conversely, when every date is
    valid no [ValueError] is raised. *)
Theorem invalid_date_raises {M} (threads responses comments : list (doc M)) :
  (forall x,
     x ∈ threads ++ responses ++ comments -> ~ valid_doc x ->
     (exists e, merge_join_course_forums threads responses comments
                = Some (Raised e))
     /\ (Forall (fun y => ~ at_date_max y) (responses ++ comments) ->
         merge_join_course_forums threads responses comments
         = Some (Raised ValueError)))
  /\ (forall s x,
        in_range threads responses comments s ->
        threads !! t_index s = Some x \/ responses !! r_index s = Some x
        \/ comments !! c_index s = Some x ->
        ~ valid_doc x ->
        body threads responses comments s = Raised ValueError)
  /\ (Forall valid_doc (threads ++ responses ++ comments) ->
      merge_join_course_forums threads responses comments
      <> Some (Raised ValueError)).
Proof.
  split_and!.
  - intros x Hx Hnv.
    destruct (merge_terminates threads responses comments) as [[out | e] Hm].
    + apply merge_Returned_inputs in Hm as [Hv _].
      rewrite Forall_forall in Hv. naive_solver.
    + split; [eauto |]. intros Hmax. destruct e; [done |].
      apply merge_IndexError in Hm as (y & Hy & _ & Hy').
      rewrite Forall_forall in Hmax. naive_solver.
  - intros s x. apply pass_invalid_row.
  - intros Hv (x & Hx & Hnv)%merge_ValueError.
    rewrite Forall_forall in Hv. naive_solver.
Qed.

Lemma invalid_date_raises_witness :
  merge_join_course_forums [row 2021 1 1 "T1"] [row 2021 4 31 "R1"] []
  = Some (Raised ValueError).
Proof.
  destruct (invalid_date_raises [row 2021 1 1 "T1"] [row 2021 4 31 "R1"] [])
    as (Hraise & _ & _).
  destruct (Hraise (row 2021 4 31 "R1")) as [_ Hvalue].
  - apply list_elem_of_further, list_elem_of_here.
  - vm_compute. intros (_ & _ & _ & Hday). exact (Hday eq_refl).
  - apply Hvalue. apply Forall_cons_2; [| apply Forall_nil_2]. discriminate.
Defined.

(** C5.  The sentinel is [date.max], and [date.max] is itself a date that
    [date] constructs: 9999-12-31 is not below the sentinel, and a row with
    that date reads the same under its index as the end of the list. *)
Theorem sentinel_is_a_valid_date :
  Date.date 9999 12 31 = Returned Date.max
  /\ Date.lt Date.max Date.max = false
  /\ bound_date [row 9999 12 31 "R1"] 0 = bound_date [row 9999 12 31 "R1"] 1.
Proof. split_and!; reflexivity. Qed.

(** C7.  With no threads and one response dated 9999-12-31, whose date is
    valid, the first pass takes the thread branch with [t_index] equal to
    the length of [threads], and the subscript raises [IndexError]. *)
Theorem exhausted_threads_selected :
  Forall valid_doc [row 9999 12 31 "R1"]
  /\ t_index (initial (M := string)) = length ([] : list (doc string))
  /\ body [] [row 9999 12 31 "R1"] [] initial = Raised IndexError
  /\ merge_join_course_forums [] [row 9999 12 31 "R1"] []
     = Some (Raised IndexError).
Proof. split_and!; [given_rows | reflexivity ..]. Qed.

(** C2.  One comment dated 9999-12-31 and nothing else: the dates are
    valid, and no list of length 1 is returned, the merge raises. *)
Theorem no_list_for_comment_at_date_max :
  Forall valid_doc [row 9999 12 31 "C1"]
  /\ merge_join_course_forums [] [] [row 9999 12 31 "C1"]
     = Some (Raised IndexError).
Proof. split; [given_rows | reflexivity]. Qed.

(** C4.  A thread and a response dated 9999-12-31: the dates are valid,
    the thread is appended, and then the merge raises, so that neither row
    reaches the caller. *)
Theorem rows_lost_at_date_max :
  Forall valid_doc [row 2021 1 1 "T1"; row 9999 12 31 "R1"]
  /\ body [row 2021 1 1 "T1"] [row 9999 12 31 "R1"] [] initial
     = Returned (State 1 0 0 [row 2021 1 1 "T1"])
  /\ merge_join_course_forums [row 2021 1 1 "T1"] [row 9999 12 31 "R1"] []
     = Some (Raised IndexError).
Proof. split_and!; [given_rows | reflexivity ..]. Qed.

(** C6.  Three empty lists give the empty list, but a list of responses
    with valid dates that ends on 9999-12-31, merged with two empty lists,
    is not returned: the merge raises. *)
Theorem single_list_at_date_max :
  merge_join_course_forums ([] : list (doc string)) [] [] = Some (Returned [])
  /\ Forall valid_doc [row 2021 3 5 "R1"; row 9999 12 31 "R2"]
  /\ merge_join_course_forums [] [row 2021 3 5 "R1"; row 9999 12 31 "R2"] []
     = Some (Raised IndexError).
Proof. split_and!; [reflexivity | given_rows | reflexivity]. Qed.

(** C8.  Two comments with valid dates, the second dated 9999-12-31: after
    the first pass the loop condition still holds, [c_index] is short of
    the end, all three dates read [date.max], and the loop is left by the
    [IndexError] of the second pass. *)
Theorem loop_left_by_exception :
  let threads : list (doc string) := [] in
  let responses : list (doc string) := [] in
  let comments := [row 2021 1 1 "C1"; row 9999 12 31 "C2"] in
  let s := State 0 0 1 [row 2021 1 1 "C1"] in
  Forall valid_doc comments
  /\ body threads responses comments initial = Returned s
  /\ cond threads responses comments s = true
  /\ c_index s < length comments
  /\ bound_date threads (t_index s) = Returned Date.max
  /\ bound_date responses (r_index s) = Returned Date.max
  /\ bound_date comments (c_index s) = Returned Date.max
  /\ body threads responses comments s = Raised IndexError
  /\ merge_join_course_forums threads responses comments
     = Some (Raised IndexError).
Proof.
  split_and!; [given_rows | reflexivity | reflexivity | simpl; lia
              | reflexivity ..].
Qed.

(** C10.  On a list of responses that is not in order and holds a row
    dated 9999-12-31, with valid dates throughout, nothing is returned in
    which the threads could be found: the merge raises. *)
Theorem no_interleaving_at_date_max :
  Forall valid_doc
    [row 2021 1 1 "T1"; row 9999 12 31 "R1"; row 2020 1 1 "R2"]
  /\ merge_join_course_forums [row 2021 1 1 "T1"]
       [row 9999 12 31 "R1"; row 2020 1 1 "R2"] []
     = Some (Raised IndexError).
Proof. split; [given_rows | reflexivity]. Qed.

(** ** Further properties of the merge *)

Lemma merge_conserves_witness :
  exists out,
    merge_join_course_forums [row 2021 3 1 "T1"; row 2021 1 1 "T2"]
      [row 2021 2 1 "R1"] [row 2020 5 5 "C1"]
    = Some (Returned out)
    /\ interleave3 [row 2021 3 1 "T1"; row 2021 1 1 "T2"]
         [row 2021 2 1 "R1"] [row 2020 5 5 "C1"] out
    /\ length out = 2 + 1 + 1
    /\ out ≡ₚ [row 2021 3 1 "T1"; row 2021 1 1 "T2"]
              ++ [row 2021 2 1 "R1"] ++ [row 2020 5 5 "C1"].
Proof. apply merge_conserves; given_rows. Defined.

Lemma merge_stable_witness :
  untag <$> filter (fun x => kind_of x = Thread)
              [tag Comment (row 2020 5 5 "C1"); tag Response (row 2021 2 1 "R1");
               tag Thread (row 2021 3 1 "T1"); tag Thread (row 2021 1 1 "T2")]
  = [row 2021 3 1 "T1"; row 2021 1 1 "T2"].
Proof.
  apply (merge_stable [row 2021 3 1 "T1"; row 2021 1 1 "T2"]
           [row 2021 2 1 "R1"] [row 2020 5 5 "C1"]).
  reflexivity.
Defined.

(** X1.  The loop is always left, by [return] or by an exception, after at
    most [len(threads) + len(responses) + len(comments)] passes: the
    outcome is defined, and unrolling the loop further does not change
    it. *)
Theorem merge_always_ends {M} (threads responses comments : list (doc M)) :
  exists r,
    merge_join_course_forums threads responses comments = Some r
    /\ forall fuel,
         S (length threads + length responses + length comments) <= fuel ->
         while threads responses comments fuel initial = Some r.
Proof.
  destruct (merge_terminates threads responses comments) as [r Hr].
  exists r. split; [done |]. intros fuel Hfuel.
  by eapply loop_fuel_mono.
Qed.

(** X6.  One list with valid dates merged with two empty lists: given as
    threads it is returned as it is, whatever its dates; given as responses
    or as comments it is returned as it is when none of its rows is dated
    [date.max], and the merge raises [IndexError] when one is. *)
Theorem merge_single_list {M} (S : list (doc M)) :
  Forall valid_doc S ->
  merge_join_course_forums S [] [] = Some (Returned S)
  /\ (Forall (fun x => ~ at_date_max x) S ->
      merge_join_course_forums [] S [] = Some (Returned S)
      /\ merge_join_course_forums [] [] S = Some (Returned S))
  /\ (Exists at_date_max S ->
      merge_join_course_forums [] S [] = Some (Raised IndexError)
      /\ merge_join_course_forums [] [] S = Some (Raised IndexError)).
Proof.
  intros Hv. split_and!.
  - by apply merge_threads_only.
  - intros Hmax. split;
      [by apply merge_responses_only | by apply merge_comments_only].
  - intros (x & Hx & Hmax)%Exists_exists.
    assert (forall threads responses comments : list (doc M),
              Forall valid_doc (threads ++ responses ++ comments) ->
              x ∈ responses ++ comments ->
              merge_join_course_forums threads responses comments
              = Some (Raised IndexError)) as Hraise.
    { intros T R C HvTRC HxRC.
      destruct (merge_terminates T R C) as [[out | []] Hm]; [| | done].
      - apply merge_Returned_inputs in Hm as [_ Hnone].
        rewrite Forall_forall in Hnone. naive_solver.
      - apply merge_ValueError in Hm as (y & Hy & Hnv).
        rewrite Forall_forall in HvTRC. naive_solver. }
    split; apply Hraise; simpl; rewrite ?app_nil_r; done.
Qed.

Lemma merge_single_list_witness :
  merge_join_course_forums
    [row 2021 3 5 "T1"; row 9999 12 31 "T2"] [] []
  = Some (Returned [row 2021 3 5 "T1"; row 9999 12 31 "T2"]).
Proof.
  apply (merge_single_list [row 2021 3 5 "T1"; row 9999 12 31 "T2"]).
  given_rows.
Defined.



(** X8.  With valid dates throughout, the merge raises [IndexError] exactly
    when some response or comment is dated [date.max], wherever it stands
    in its list and whatever the threads are. *)
Theorem index_error_iff {M} (threads responses comments : list (doc M)) :
  Forall valid_doc (threads ++ responses ++ comments) ->
  merge_join_course_forums threads responses comments
  = Some (Raised IndexError)
  <-> Exists at_date_max (responses ++ comments).
Proof.
  intros Hv. rewrite Exists_exists. split.
  - intros (x & Hx & _ & Hmax)%merge_IndexError. eauto.
  - intros (x & Hx & Hmax).
    destruct (merge_terminates threads responses comments)
      as [[out | []] Hm]; [| | done].
    + apply merge_Returned_inputs in Hm as [_ Hnone].
      rewrite Forall_forall in Hnone. naive_solver.
    + apply merge_ValueError in Hm as (y & Hy & Hnv).
      rewrite Forall_forall in Hv. naive_solver.
Qed.

Lemma index_error_iff_witness :
  merge_join_course_forums [row 2021 1 1 "T1"]
    [row 9999 12 31 "R1"; row 2020 1 1 "R2"] [row 2021 1 1 "C1"]
  = Some (Raised IndexError).
Proof.
  apply (index_error_iff [row 2021 1 1 "T1"]
           [row 9999 12 31 "R1"; row 2020 1 1 "R2"] [row 2021 1 1 "C1"]).
  - given_rows.
  - apply Exists_cons_hd. reflexivity.
Defined.

(** ** The course query *)

(** X9.  [parent_id_check] has an effect on queries of type ['Comment']
    only: for any other [query_type] the query is the one built without
    it. *)
Theorem parent_id_check_ignored (course_id : course_key) (query_type : string)
    (parent_id_check : option bool) :
  query_type <> "Comment" ->
  generate_course_forums_query course_id query_type parent_id_check
  = generate_course_forums_query course_id query_type None.
Proof.
  intros Hne. unfold generate_course_forums_query.
  destruct (decide (query_type = "Comment")); [done | reflexivity].
Qed.

Lemma parent_id_check_ignored_witness :
  generate_course_forums_query (CourseKey "edX/Demo/2014") "CommentThread"
    (Some true)
  = generate_course_forums_query (CourseKey "edX/Demo/2014") "CommentThread"
      None.
Proof. apply parent_id_check_ignored. discriminate. Defined.

(** X10.  The first stage of the course query is a [$match] that always
    keeps the conditions on [course_id] and [_type]; it has a condition on
    [parent_id], namely [{'$exists': parent_id_check}], exactly when the
    type is ['Comment'] and [parent_id_check] is given, and no condition on
    any other key.  The stages after it are the same for all arguments. *)
Theorem course_query_match_stage (course_id : course_key) (query_type : string)
    (parent_id_check : option bool) :
  exists (conditions : gmap string value) (stages : list value),
    generate_course_forums_query course_id query_type parent_id_check
    = VDict {[ "$match" := VDict conditions ]} :: stages
    /\ conditions !! "course_id"
       = Some (VStr (to_deprecated_string course_id))
    /\ conditions !! "_type" = Some (VStr query_type)
    /\ conditions !! "parent_id"
       = (if decide (query_type = "Comment")
          then (fun check => VDict {[ "$exists" := VBool check ]})
                 <$> parent_id_check
          else None)
    /\ (forall key, is_Some (conditions !! key) ->
                    key ∈ ["course_id"; "_type"; "parent_id"])
    /\ (forall course_id' query_type' parent_id_check',
          tail (generate_course_forums_query course_id' query_type'
                  parent_id_check')
          = stages).
Proof.
  assert (forall (m : gmap string value) key,
            (forall k, k ∉ ["course_id"; "_type"; "parent_id"] -> m !! k = None) ->
            is_Some (m !! key) -> key ∈ ["course_id"; "_type"; "parent_id"])
    as Hkeys.
  { intros m key Hm [v Hv].
    destruct (decide (key ∈ ["course_id"; "_type"; "parent_id"])) as [| Hn];
      [done |]. rewrite (Hm key Hn) in Hv. done. }
  assert (forall k : string, k ∉ ["course_id"; "_type"; "parent_id"] ->
            k <> "course_id" /\ k <> "_type" /\ k <> "parent_id") as Hout.
  { intros k Hk. split_and!; intros ->; apply Hk; repeat constructor. }
  unfold generate_course_forums_query.
  destruct (decide (query_type = "Comment")) as [Heq | Hne];
    [destruct parent_id_check as [check |] |];
    eexists _, _; (split; [reflexivity |]); split_and!;
    try (by simplify_map_eq).
  all: first [ intros key; apply Hkeys; intros k (? & ? & ?)%Hout;
               by simplify_map_eq
             | intros c' t' p'; repeat case_match; reflexivity ].
Qed.

(** ** The student report *)

Lemma comprehension_Done {A B} (f : A -> attempt B) (l : list A) (ys : list B) :
  comprehension f l = Done ys <-> Forall2 (fun x y => f x = Done y) l ys.
Proof.
  revert ys. induction l as [| x l IH]; intros ys; simpl.
  - split; [intros [= <-]; constructor | by intros ->%Forall2_nil_inv_l].
  - destruct (f x) as [y |] eqn:Ey; simpl.
    + destruct (comprehension f l) as [ys' |] eqn:El; simpl.
      * split.
        -- intros [= <-]. constructor; [done |]. by apply IH.
        -- intros (y' & ys'' & Hy & Hys & ->)%Forall2_cons_inv_l.
           apply IH in Hys. congruence.
      * split; [done |].
        intros (y' & ys'' & Hy & Hys & ->)%Forall2_cons_inv_l.
        apply IH in Hys. congruence.
    + split; [done |].
      intros (y' & ys'' & Hy & Hys & ->)%Forall2_cons_inv_l. congruence.
Qed.

Lemma comprehension_Failed {A B} (f : A -> attempt B) (l : list A)
    (e : report_exn) :
  comprehension f l = Failed e <->
  exists i x,
    l !! i = Some x /\ f x = Failed e
    /\ forall j x', j < i -> l !! j = Some x' -> exists y, f x' = Done y.
Proof.
  induction l as [| x l IH]; simpl.
  - split; [done | by intros (i & x & Hx & _)].
  - destruct (f x) as [y |] eqn:Ey; simpl.
    + destruct (comprehension f l) as [ys |] eqn:El; simpl.
      * split; [done |]. intros (i & x' & Hi & Hf & Hbefore).
        destruct i as [| i]; simpl in Hi; [simplify_eq; congruence |].
        assert (Done ys = Failed e) as Habs; [| done].
        apply IH. exists i, x'. split_and!; try done.
        intros j x'' Hj Hx''. apply (Hbefore (S j)); [lia | done].
      * split.
        -- intros [= <-]. destruct (proj1 IH eq_refl) as (i & x' & Hi & Hf & Hb).
           exists (S i), x'. split_and!; try done.
           intros [| j] x'' Hj Hx''; simpl in Hx''; [simplify_eq; eauto |].
           apply (Hb j); [lia | done].
        -- intros (i & x' & Hi & Hf & Hbefore).
           destruct i as [| i]; simpl in Hi; [simplify_eq; congruence |].
           apply IH. exists i, x'. split_and!; try done.
           intros j x'' Hj Hx''. apply (Hbefore (S j)); [lia | done].
    + split.
      * intros [= <-]. exists 0, x. split_and!; try done. intros; lia.
      * intros (i & x' & Hi & Hf & Hbefore).
        destruct i as [| i]; simpl in Hi; [simplify_eq; congruence |].
        destruct (Hbefore 0 x) as [y Hy]; [lia | done | congruence].
Qed.

Section student_report_facts.

Variable aggregate : list value -> attempt (list (gmap string value)).

(** The element expression of the list comprehension. *)
Local Abbreviation student_row :=
  (fun result : gmap string value =>
     username ← getitem result "_id";
     posts ← getitem result "posts";
     votes ← getitem result "votes";
     Done [username; posts; votes]).

Lemma student_row_Done (result : gmap string value) (row : list value) :
  student_row result = Done row <->
  exists username posts votes,
    result !! "_id" = Some username /\ result !! "posts" = Some posts
    /\ result !! "votes" = Some votes /\ row = [username; posts; votes].
Proof.
  unfold getitem.
  destruct (result !! "_id") as [u |]; simpl;
    [destruct (result !! "posts") as [p |]; simpl;
     [destruct (result !! "votes") as [v |]; simpl | ] | ].
  - split; [intros [= <-]; by exists u, p, v |].
    intros (u' & p' & v' & ? & ? & ? & ->). by simplify_eq.
  - split; [done | by intros (u' & p' & v' & ? & ? & ? & ->)].
  - split; [done | by intros (u' & p' & v' & ? & ? & ? & ->)].
  - split; [done | by intros (u' & p' & v' & ? & ? & ? & ->)].
Qed.

Lemma student_row_Failed (result : gmap string value) (e : report_exn) :
  student_row result = Failed e ->
  exists key,
    e = KeyError key /\ result !! key = None
    /\ (key = "_id"
        \/ (key = "posts" /\ is_Some (result !! "_id"))
        \/ (key = "votes" /\ is_Some (result !! "_id")
            /\ is_Some (result !! "posts"))).
Proof.
  unfold getitem.
  destruct (result !! "_id") as [u |] eqn:Eu; simpl;
    [destruct (result !! "posts") as [p |] eqn:Ep; simpl;
     [destruct (result !! "votes") as [v |] eqn:Ev; simpl | ] | ];
    intros [= <-].
  - exists "votes". split_and!; [done | done |]. right; right. eauto.
  - exists "posts". split_and!; [done | done |]. right; left. eauto.
  - exists "_id". split_and!; [done | done |]. by left.
Qed.

(** X11.  When the aggregation returns rows that all have the keys
    ['_id'], ['posts'] and ['votes'], the student report is the header
    [Username, Posts, Votes] with one line per row, in the order of the
    rows, made of the three values of the row in that order; other keys of
    a row are left out. *)
Theorem student_report_rows (course_id : course_key)
    (results : list (gmap string value)) :
  aggregate (generate_student_forums_query course_id) = Done results ->
  Forall complete results ->
  exists parsed_results,
    collect_student_forums_data aggregate course_id
    = Done (["Username"; "Posts"; "Votes"], parsed_results)
    /\ Forall2
         (fun result line =>
            exists username posts votes,
              result !! "_id" = Some username
              /\ result !! "posts" = Some posts
              /\ result !! "votes" = Some votes
              /\ line = [username; posts; votes])
         results parsed_results.
Proof.
  intros Hagg Hall. unfold collect_student_forums_data. rewrite Hagg. simpl.
  destruct (comprehension student_row results) as [rows | e] eqn:Ec; simpl.
  - exists rows. split; [done |].
    apply comprehension_Done in Ec.
    eapply Forall2_impl; [exact Ec |]. intros result line Hrow.
    by apply student_row_Done in Hrow.
  - apply comprehension_Failed in Ec as (i & result & Hi & Hrow & _).
    apply student_row_Failed in Hrow as (key & _ & Hnone & Hkey).
    rewrite Forall_forall in Hall.
    destruct (Hall result) as (Hu & Hp & Hv);
      [by eapply list_elem_of_lookup_2 |].
    destruct Hkey as [-> | [[-> _] | [-> _]]];
      rewrite Hnone in *; by apply is_Some_None in Hu || apply is_Some_None in Hp
                             || apply is_Some_None in Hv.
Qed.

(** X12.  The student report fails in two ways.  An exception of the
    aggregation is raised again as it is.  When a row lacks one of the
    keys ['_id'], ['posts'], ['votes'], the report raises [KeyError] for
    the first key, in that order, that the first such row lacks, and no
    partial report is returned. *)
Theorem student_report_failure (course_id : course_key) :
  (forall e,
     aggregate (generate_student_forums_query course_id) = Failed e ->
     collect_student_forums_data aggregate course_id = Failed e)
  /\ (forall results,
        aggregate (generate_student_forums_query course_id) = Done results ->
        Exists (fun result => ~ complete result) results ->
        exists i result key,
          results !! i = Some result
          /\ (forall j earlier, j < i -> results !! j = Some earlier ->
                                complete earlier)
          /\ result !! key = None
          /\ (key = "_id"
              \/ (key = "posts" /\ is_Some (result !! "_id"))
              \/ (key = "votes" /\ is_Some (result !! "_id")
                  /\ is_Some (result !! "posts")))
          /\ collect_student_forums_data aggregate course_id
             = Failed (KeyError key)).
Proof.
  split.
  - intros e Hagg. unfold collect_student_forums_data. by rewrite Hagg.
  - intros results Hagg Hsome. unfold collect_student_forums_data.
    rewrite Hagg. simpl.
    destruct (comprehension student_row results) as [rows | e] eqn:Ec; simpl.
    + apply comprehension_Done in Ec.
      apply Exists_exists in Hsome as (result & Hin & Hnot).
      apply list_elem_of_lookup_1 in Hin as [i Hi].
      destruct (Forall2_lookup_l _ _ _ _ _ Ec Hi) as (line & _ & Hrow).
      apply student_row_Done in Hrow as (u & p & v & Hu & Hp & Hv & _).
      exfalso. apply Hnot. unfold complete. rewrite Hu, Hp, Hv. eauto.
    + apply comprehension_Failed in Ec as (i & result & Hi & Hrow & Hbefore).
      apply student_row_Failed in Hrow as (key & -> & Hnone & Hkey).
      exists i, result, key. split_and!; try done.
      intros j earlier Hj Hearlier.
      destruct (Hbefore j earlier Hj Hearlier) as [line Hline].
      apply student_row_Done in Hline as (u & p & v & Hu & Hp & Hv & _).
      unfold complete. rewrite Hu, Hp, Hv. eauto.
Qed.

End student_report_facts.

Lemma student_report_rows_witness :
  exists parsed_results,
    collect_student_forums_data
      (fun _ => Done [<["extra" := VInt 0]> (student "alice" 3 5);
                      student "bob" 1 0])
      (CourseKey "edX/Demo/2014")
    = Done (["Username"; "Posts"; "Votes"], parsed_results)
    /\ Forall2
         (fun result line =>
            exists username posts votes,
              result !! "_id" = Some username
              /\ result !! "posts" = Some posts
              /\ result !! "votes" = Some votes
              /\ line = [username; posts; votes])
         [<["extra" := VInt 0]> (student "alice" 3 5); student "bob" 1 0]
         parsed_results.
Proof.
  apply student_report_rows; [reflexivity |].
  repeat apply Forall_cons_2; [| | apply Forall_nil_2];
    unfold complete; split_and!; by eexists.
Defined.

Lemma student_report_failure_witness :
  exists i result key,
    [student "alice" 3 5; delete "posts" (student "bob" 1 0)] !! i
    = Some result
    /\ (forall j earlier,
          j < i ->
          [student "alice" 3 5; delete "posts" (student "bob" 1 0)] !! j
          = Some earlier ->
          complete earlier)
    /\ result !! key = None
    /\ (key = "_id"
        \/ (key = "posts" /\ is_Some (result !! "_id"))
        \/ (key = "votes" /\ is_Some (result !! "_id")
            /\ is_Some (result !! "posts")))
    /\ collect_student_forums_data
         (fun _ => Done [student "alice" 3 5;
                         delete "posts" (student "bob" 1 0)])
         (CourseKey "edX/Demo/2014")
       = Failed (KeyError key).
Proof.
  apply (student_report_failure _ (CourseKey "edX/Demo/2014"));
    [reflexivity |].
  apply Exists_cons_tl, Exists_cons_hd. intros (_ & [v Hv] & _).
  discriminate Hv.
Defined.
